(** * The events CRUD routes of [06-database-integration/routes/events.py]

    A shallow embedding of the six route handlers of the [event_router]
    and of the part of the object-relational session they drive, followed
    by the properties of the handlers.

    The handlers are straight-line programs over a [Session]; they are
    written below in a small state-and-exception monad, one monadic line
    per source line.  The session is modelled as a unit of work: Python
    objects live in a heap and are handed around by reference, pending
    inserts and deletes are recorded, [commit] flushes them into the open
    transaction and publishes the transaction to the database. *)

From stdpp Require Import gmap strings list fin_maps.

Local Open Scope string_scope.
Local Open Scope Z_scope.
Local Open Scope list_scope.

(** ** Exceptions and the handler monad *)

(** The exceptions a route can end with.  [HTTPException] is the one the
    routes raise themselves; the other two are the ones the session
    operations they call can raise. *)
Inductive Exn :=
  | HTTPException (status_code : Z) (detail : string)
  | IntegrityError
  | InvalidRequestError.

Inductive Result (A : Type) :=
  | Ok (a : A)
  | Raise (e : Exn).
Arguments Ok {A} a.
Arguments Raise {A} e.

(** [status.HTTP_404_NOT_FOUND] *)
Definition HTTP_404_NOT_FOUND : Z := 404.

Section events.

(** The values held by the attributes of an event (strings, lists of
    tags, [None] ...).  The routes never inspect them. *)
Context {Value : Type}.

(** Modelled from the spec: [models/events.py] is not part of the sources.
    [Event] is the mapped class of the Event table, "a declarative class
    describing the shape ... of a request or response payload": an object
    with a primary key, the one [session.get(Event, id)] looks rows up by,
    unset ([None]) until the row is inserted when the client leaves it
    out, and named attributes for the other columns.  The uniqueness of
    the primary key is the only constraint of the table that is modelled;
    the columns and their types are left open. *)
Record Event := mkEvent {
  pk : option Z;
  attrs : gmap string Value
}.

(** Modelled from the spec: [EventUpdate], "a payload of optional fields",
    also declared in [models/events.py].  Every field has a value (its
    default when the request left it out); [fields_set] records the fields
    the request set explicitly.  Its fields are columns of the row other
    than the primary key, which update_event takes from the path. *)
Record EventUpdate := mkEventUpdate {
  field_values : gmap string Value;
  fields_set : gset string
}.

(** [new_data.model_dump(exclude_unset=True)]: the dictionary of the
    fields that were explicitly set. *)
Definition model_dump_exclude_unset (new_data : EventUpdate)
  : gmap string Value :=
  filter (λ kv, kv.1 ∈ fields_set new_data) (field_values new_data).

(** ** The session *)

(** The state a handler runs in.  [database] holds the committed rows of
    the Event table, by primary key; [txn] is the table as the session's
    open transaction sees it; [objects] is the heap of [Event] objects of
    the request, an object reference being an index into it;
    [identity_map] gives the persistent object of each primary key loaded
    in the session; [new] and [deleted] are the references added and marked
    for deletion since the last flush. *)
Record Session := mkSession {
  database : gmap Z (gmap string Value);
  txn : gmap Z (gmap string Value);
  objects : list Event;
  identity_map : gmap Z nat;
  new : list nat;
  deleted : list nat
}.

Definition M (A : Type) : Type := Session → Result A * Session.

Definition ret {A} (a : A) : M A := λ s, (Ok a, s).

Definition bind {A B} (m : M A) (k : A → M B) : M B := λ s,
  match m s with
  | (Ok a, s') => k a s'
  | (Raise e, s') => (Raise e, s')
  end.

Definition raise {A} (e : Exn) : M A := λ s, (Raise e, s).

#[local] Instance M_ret : MRet M := @ret.
#[local] Instance M_bind : MBind M := λ A B k m, bind m k.

(** [for x in xs: body(x)] *)
Fixpoint for_each {A} (xs : list A) (body : A → M unit) : M unit :=
  match xs with
  | [] => ret tt
  | x :: xs' => bind (body x) (λ _, for_each xs' body)
  end.

Fixpoint map_each {A B} (f : A → M B) (xs : list A) : M (list B) :=
  match xs with
  | [] => ret []
  | x :: xs' => bind (f x) (λ y, bind (map_each f xs') (λ ys, ret (y :: ys)))
  end.

(** Modelled from the spec: [get_session] of [database/connection.py],
    which is not part of the sources; it hands each request a new
    session, "a unit-of-work object mediating reads/writes against the
    relational store". *)
Definition get_session (db : gmap Z (gmap string Value)) : Session :=
  {| database := db; txn := db; objects := []; identity_map := ∅;
     new := []; deleted := [] |}.

(** The primary key the database generates for a row that is inserted
    without one; it depends on the engine, which the routes do not fix. *)
Variable next_id : gmap Z (gmap string Value) → Z.

(** *** Objects *)

(** A new Python object; its reference is the next free index. *)
Definition new_object (e : Event) : M nat := λ s,
  (Ok (length (objects s)),
   {| database := database s; txn := txn s; objects := objects s ++ [e];
      identity_map := identity_map s; new := new s;
      deleted := deleted s |}).

Definition set_objects (os : list Event) (s : Session) : Session :=
  {| database := database s; txn := txn s; objects := os;
     identity_map := identity_map s; new := new s; deleted := deleted s |}.

(** [setattr(event, key, value)] *)
Definition setattr (event : nat) (key : string) (value : Value) : M unit :=
  λ s, (Ok tt,
        set_objects
          (alter (λ e, mkEvent (pk e) (<[key := value]> (attrs e))) event
                 (objects s)) s).

(** The object behind a reference, as the response serialiser reads it. *)
Definition deref (s : Session) (r : nat) : Event :=
  default (mkEvent None ∅) (objects s !! r).

(** *** Loading rows *)

(** The object a row of the table is loaded as. *)
Definition row_object (row : Z * gmap string Value) : Event :=
  mkEvent (Some row.1) row.2.

(** The object of a fetched row: the one the identity map already has for
    its primary key, or else a new persistent object. *)
Definition fetch (row : Z * gmap string Value) : M nat := λ s,
  match identity_map s !! row.1 with
  | Some r => (Ok r, s)
  | None =>
      (Ok (length (objects s)),
       {| database := database s; txn := txn s;
          objects := objects s ++ [row_object row];
          identity_map := <[row.1 := length (objects s)]> (identity_map s);
          new := new s; deleted := deleted s |})
  end.

(** [session.get(Event, id)]: the object with that primary key, or
    [None]. *)
Definition session_get (id : Z) : M (option nat) := λ s,
  match identity_map s !! id with
  | Some r => (Ok (Some r), s)
  | None =>
      match txn s !! id with
      | Some a => bind (fetch (id, a)) (λ r, ret (Some r)) s
      | None => (Ok None, s)
      end
  end.

(** *** The unit of work *)

(** An object is persistent when the identity map holds it under its own
    primary key. *)
Definition persistent (s : Session) (r : nat) : bool :=
  match objects s !! r ≫= pk with
  | Some i => bool_decide (identity_map s !! i = Some r)
  | None => false
  end.

(** [session.add(obj)]: a persistent object is already tracked; any other
    object becomes pending. *)
Definition session_add (r : nat) : M unit := λ s,
  if persistent s r then (Ok tt, s)
  else (Ok tt,
        {| database := database s; txn := txn s; objects := objects s;
           identity_map := identity_map s; new := new s ++ [r];
           deleted := deleted s |}).

(** [session.delete(obj)]: only a persistent object can be marked. *)
Definition session_delete (r : nat) : M unit := λ s,
  if persistent s r then
    (Ok tt,
     {| database := database s; txn := txn s; objects := objects s;
        identity_map := identity_map s; new := new s;
        deleted := deleted s ++ [r] |})
  else (Raise InvalidRequestError, s).

(** INSERT of one pending object, under its own primary key or, when it
    has none, under a generated one.  A key that is taken violates the
    uniqueness of the primary key. *)
Definition insert_row (r : nat) (s : Session) : option Session :=
  match objects s !! r with
  | None => Some s
  | Some e =>
      let key := default (next_id (txn s)) (pk e) in
      match txn s !! key with
      | Some _ => None
      | None =>
          Some {| database := database s;
                  txn := <[key := attrs e]> (txn s);
                  objects := <[r := mkEvent (Some key) (attrs e)]> (objects s);
                  identity_map := <[key := r]> (identity_map s);
                  new := new s; deleted := deleted s |}
      end
  end.

Fixpoint insert_rows (rs : list nat) (s : Session) : option Session :=
  match rs with
  | [] => Some s
  | r :: rs' =>
      match insert_row r s with
      | Some s' => insert_rows rs' s'
      | None => None
      end
  end.

(** UPDATE of the rows whose persistent object is loaded: the row takes
    the attributes of the object. *)
Definition update_rows (s : Session) : gmap Z (gmap string Value) :=
  map_imap (λ i a, Some (match identity_map s !! i ≫= (objects s !!.) with
                         | Some e => attrs e
                         | None => a
                         end)) (txn s).

(** The primary keys of the objects marked for deletion. *)
Definition deleted_keys (s : Session) : list Z :=
  omap (λ r, objects s !! r ≫= pk) (deleted s).

(** Flush: the pending INSERTs, then the UPDATEs, then the DELETEs, all
    inside the open transaction. *)
Definition flush : M unit := λ s,
  match insert_rows (new s) s with
  | None => (Raise IntegrityError, s)
  | Some s1 =>
      (Ok tt,
       {| database := database s1;
          txn := foldr delete (update_rows s1) (deleted_keys s1);
          objects := objects s1;
          identity_map := foldr delete (identity_map s1) (deleted_keys s1);
          new := []; deleted := [] |})
  end.

(** [session.commit()]: flush, then publish the transaction. *)
Definition session_commit : M unit :=
  bind flush (λ _ s,
    (Ok tt,
     {| database := txn s; txn := txn s; objects := objects s;
        identity_map := identity_map s; new := new s;
        deleted := deleted s |})).

(** [session.refresh(obj)]: reload the attributes of a persistent object
    from its row. *)
Definition session_refresh (r : nat) : M unit := λ s,
  match objects s !! r ≫= pk with
  | Some i =>
      match txn s !! i with
      | Some a =>
          if persistent s r
          then (Ok tt, set_objects (<[r := mkEvent (Some i) a]> (objects s)) s)
          else (Raise InvalidRequestError, s)
      | None => (Raise InvalidRequestError, s)
      end
  | None => (Raise InvalidRequestError, s)
  end.

(** [session.exec(select(Event)).all()]: pending changes are flushed
    first, then every row of the table is fetched. *)
Definition session_exec_select_all : M (list nat) :=
  bind flush (λ _ s, map_each fetch (map_to_list (txn s)) s).

(** ** The route handlers *)

Definition not_found {A} : M A :=
  raise (HTTPException HTTP_404_NOT_FOUND
                       "Event with supplied ID does not exist").

Definition retrieve_all_events : M (list nat) :=
  events ← session_exec_select_all;
  mret events.

Definition retrieve_event (id : Z) : M nat :=
  event ← session_get id;
  match event with
  | None => not_found
  | Some event => mret event
  end.

Definition create_event (new_event : nat) : M (gmap string string) :=
  session_add new_event;;
  session_commit;;
  session_refresh new_event;;
  mret {[ "message" := "Event created successfully" ]}.

Definition update_event (id : Z) (new_data : EventUpdate) : M nat :=
  event ← session_get id;
  match event with
  | None => not_found
  | Some event =>
      let event_data := model_dump_exclude_unset new_data in
      for_each (map_to_list event_data)
               (λ kv, setattr event kv.1 kv.2);;
      session_add event;;
      session_commit;;
      session_refresh event;;
      mret event
  end.

Definition delete_event (id : Z) : M (gmap string string) :=
  event ← session_get id;
  match event with
  | None => not_found
  | Some event =>
      session_delete event;;
      session_commit;;
      mret {[ "message" := "Event deleted successfully" ]}
  end.

Definition delete_all_events : M (gmap string string) :=
  events_to_delete ← session_exec_select_all;
  match events_to_delete with
  | [] => mret {[ "message" := "No events found to delete" ]}
  | _ =>
      for_each events_to_delete session_delete;;
      session_commit;;
      mret {[ "message" := "All events deleted successfully" ]}
  end.

(** ** Requests *)

(** One request: the handler runs in the session [get_session] provides
    for it, the value it returns is serialised while the session is still
    open, and what the request leaves behind is the database.  An
    exception ends the request without a commit. *)
Definition respond {A B} (serialise : Session → A → B) (handler : M A)
    (db : gmap Z (gmap string Value))
  : Result B * gmap Z (gmap string Value) :=
  match handler (get_session db) with
  | (Ok a, s) => (Ok (serialise s a), database s)
  | (Raise e, s) => (Raise e, database s)
  end.

(** [response_model=Event] and [response_model=List[Event]] *)
Definition as_event (s : Session) (r : nat) : Event := deref s r.
Definition as_events (s : Session) (rs : list nat) : list Event :=
  deref s <$> rs.
Definition as_dict (s : Session) (d : gmap string string)
  : gmap string string := d.

(** The request body of [POST /new] is parsed into a new [Event] object
    that is passed to the handler. *)
Definition with_body {A} (body : Event) (handler : nat → M A) : M A :=
  new_event ← new_object body;
  handler new_event.

(** ** Definitions used to state the session after a bulk load *)

(** The identity map after loading the rows with keys [ks], in that
    order, as the objects [n], [n+1], ... *)
Fixpoint index_rows (n : nat) (ks : list Z) (im : gmap Z nat) : gmap Z nat :=
  match ks with
  | [] => im
  | k :: ks' => index_rows (S n) ks' (<[k := n]> im)
  end.

(** A new session after every row of the table has been loaded. *)
Definition loaded_session (db : gmap Z (gmap string Value)) : Session :=
  mkSession db db (row_object <$> map_to_list db)
            (index_rows 0 (map_to_list db).*1 ∅) [] [].

(** The exception the three by-id routes raise. *)
Definition event_not_found : Exn :=
  HTTPException HTTP_404_NOT_FOUND "Event with supplied ID does not exist".

(** ** The router *)

(** The requests [event_router] serves: one constructor for each
    decorated handler, carrying the path parameter and the parsed body the
    handler is called with. *)
Inductive Request :=
  | GET_events                                   (* get("/") *)
  | GET_event (id : Z)                           (* get("/{id}") *)
  | POST_new (new_event : Event)                 (* post("/new") *)
  | PUT_edit (id : Z) (new_data : EventUpdate)   (* put("/edit/{id}") *)
  | DELETE_event (id : Z)                        (* delete("/delete/{id}") *)
  | DELETE_events.                               (* delete("/") *)

(** What a served request answers with: the list of events, one event,
    or a message dictionary. *)
Inductive Response :=
  | Events (events : list Event)
  | AnEvent (event : Event)
  | Message (message : gmap string string).

Definition tagged {A} (tag : A → Response)
    (out : Result A * gmap Z (gmap string Value))
  : Result Response * gmap Z (gmap string Value) :=
  (match out.1 with Ok a => Ok (tag a) | Raise e => Raise e end, out.2).

(** The routing table: each request goes to its handler, run as one
    request of its own. *)
Definition event_router (req : Request) (db : gmap Z (gmap string Value))
  : Result Response * gmap Z (gmap string Value) :=
  match req with
  | GET_events => tagged Events (respond as_events retrieve_all_events db)
  | GET_event id => tagged AnEvent (respond as_event (retrieve_event id) db)
  | POST_new new_event =>
      tagged Message (respond as_dict (with_body new_event create_event) db)
  | PUT_edit id new_data =>
      tagged AnEvent (respond as_event (update_event id new_data) db)
  | DELETE_event id => tagged Message (respond as_dict (delete_event id) db)
  | DELETE_events => tagged Message (respond as_dict delete_all_events db)
  end.

(** The database after a sequence of requests, served one after the
    other. *)
Definition serve (reqs : list Request) (db : gmap Z (gmap string Value))
  : gmap Z (gmap string Value) :=
  foldl (λ db req, (event_router req db).2) db reqs.

(** Kinds of requests. *)
Definition is_get (req : Request) : bool :=
  match req with GET_events | GET_event _ => true | _ => false end.

Definition is_post (req : Request) : bool :=
  match req with POST_new _ => true | _ => false end.

Definition is_delete (req : Request) : bool :=
  match req with DELETE_event _ | DELETE_events => true | _ => false end.

(** The requests that can change or remove the row with key [id]: an
    edit or a delete addressed to it, and the delete of all rows. *)
Definition touches (id : Z) (req : Request) : bool :=
  match req with
  | PUT_edit j _ | DELETE_event j => bool_decide (j = id)
  | DELETE_events => true
  | _ => false
  end.


End events.

(** ** A concrete store, for running the routes *)

(** A key generator as SQLite's for an integer primary key: one more than
    the largest key in use. *)
Definition max_id_succ {V} (t : gmap Z V) : Z :=
  1 + foldr Z.max 0 (map_to_list t).*1.

Definition sample_attrs (title location : string) : gmap string string :=
  {[ "title" := title; "location" := location ]}.

Definition sample_db : gmap Z (gmap string string) :=
  {[ 1 := sample_attrs "FastAPI book launch" "Google Meet";
     2 := sample_attrs "PyCon" "Lahore" ]}.

Definition sample_update : @EventUpdate string :=
  mkEventUpdate {[ "title" := "PyCon 2024"; "location" := "None" ]}
                {[ "title" ]}.

Definition unset_update : @EventUpdate string :=
  mkEventUpdate {[ "title" := "None"; "location" := "None" ]} ∅.

Definition sample_event : @Event string :=
  mkEvent None (sample_attrs "DjangoCon" "Karachi").

Definition sample_update_location : @EventUpdate string :=
  mkEventUpdate {[ "title" := "None"; "location" := "Islamabad" ]}
                {[ "location" ]}.

Definition same_title_update : @EventUpdate string :=
  mkEventUpdate {[ "title" := "PyCon"; "location" := "None" ]}
                {[ "title" ]}.

Definition sample_keyed_event : @Event string :=
  mkEvent (Some 7) (sample_attrs "EuroPython" "Prague").

Definition requests_without_post : list (@Request string) :=
  [GET_events; PUT_edit 2 sample_update; DELETE_event 1; GET_event 9].

Definition requests_without_delete : list (@Request string) :=
  [POST_new sample_event; PUT_edit 1 sample_update; GET_events].

Definition requests_elsewhere : list (@Request string) :=
  [POST_new sample_event; PUT_edit 2 sample_update; DELETE_event 2;
   GET_events].

Definition read_requests : list (@Request string) :=
  [GET_events; GET_event 1; GET_event 9].

Definition sample_listed_event : @Event string :=
  mkEvent (Some 1) (sample_attrs "FastAPI book launch" "Google Meet").

(** * Properties of the routes *)

Section properties.

Context {Value : Type}.
Variable next_id : gmap Z (gmap string Value) → Z.
Implicit Types (db : gmap Z (gmap string Value)) (s : @Session Value).
Implicit Types (new_data : @EventUpdate Value) (a : gmap string Value).

(** ** The by-id routes and [create_event], run in a new session *)

Lemma bind_ok {A B} (m : M A) (k : A → M B) s (a : A) s' :
  m s = (Ok a, s') → bind m k s = k a s'.
Proof. intros E. unfold bind. by rewrite E. Qed.

Lemma session_get_fresh db id :
  session_get id (get_session db) =
  match db !! id with
  | Some a =>
      (Ok (Some 0%nat),
       mkSession db db [mkEvent (Some id) a] {[ id := 0%nat ]} [] [])
  | None => (Ok None, get_session db)
  end.
Proof.
  unfold session_get. simpl. rewrite lookup_empty.
  destruct (db !! id) as [a|]; [|done].
  unfold bind, fetch. simpl. rewrite lookup_empty. done.
Qed.

Lemma retrieve_event_run db id :
  retrieve_event id (get_session db) =
  match db !! id with
  | Some a =>
      (Ok 0%nat,
       mkSession db db [mkEvent (Some id) a] {[ id := 0%nat ]} [] [])
  | None =>
      (Raise (HTTPException 404 "Event with supplied ID does not exist"),
       get_session db)
  end.
Proof.
  unfold retrieve_event, mbind, M_bind.
  destruct (db !! id) as [a|] eqn:E.
  - erewrite bind_ok; [|rewrite session_get_fresh, E; done]. done.
  - erewrite bind_ok; [|rewrite session_get_fresh, E; done]. done.
Qed.

Lemma set_objects_id s : set_objects (objects s) s = s.
Proof. by destruct s. Qed.

Lemma for_each_setattr r (l : list (string * Value)) s :
  for_each l (λ kv, setattr r kv.1 kv.2) s =
  (Ok tt,
   set_objects
     (alter (λ e, mkEvent (pk e)
                    (foldl (λ a kv, <[kv.1 := kv.2]> a) (attrs e) l))
            r (objects s)) s).
Proof.
  revert s. induction l as [|[k v] l IH]; intros s; simpl.
  - unfold ret. f_equal. rewrite list_alter_id; [apply eq_sym, set_objects_id|].
    by intros [??].
  - erewrite bind_ok; [|reflexivity]. rewrite IH. f_equal.
    unfold set_objects; simpl. f_equal.
    by rewrite list_alter_alter_eq.
Qed.

Lemma foldl_insert_list (l : list (string * Value)) (a : gmap string Value) :
  NoDup l.*1 →
  foldl (λ a kv, <[kv.1 := kv.2]> a) a l = list_to_map l ∪ a.
Proof.
  revert a. induction l as [|[k v] l IH]; intros a Hnd; simpl.
  - by rewrite (left_id_L ∅ (∪)).
  - inversion Hnd as [|?? Hk Hl]; subst. rewrite IH by done.
    rewrite <- insert_union_l. apply eq_sym, insert_union_r.
    by apply not_elem_of_list_to_map_1.
Qed.

Lemma foldl_insert_dict (m a : gmap string Value) :
  foldl (λ a kv, <[kv.1 := kv.2]> a) a (map_to_list m) = m ∪ a.
Proof.
  rewrite foldl_insert_list by apply NoDup_fst_map_to_list.
  by rewrite list_to_map_to_list.
Qed.

Lemma update_rows_single db t id a' nw dl :
  update_rows (mkSession db t [mkEvent (Some id) a'] {[ id := 0%nat ]} nw dl)
  = alter (λ _, a') id t.
Proof.
  unfold update_rows; simpl. apply map_eq; intros i.
  rewrite map_lookup_imap, lookup_alter.
  destruct (decide (id = i)) as [->|Hne].
  - rewrite lookup_singleton_eq. simpl. by destruct (t !! i).
  - rewrite lookup_singleton_ne by done. simpl. by destruct (t !! i).
Qed.

Lemma persistent_single db t id a' nw dl :
  persistent (mkSession db t [mkEvent (Some id) a'] {[ id := 0%nat ]} nw dl)
             0 = true.
Proof.
  unfold persistent; simpl. rewrite lookup_singleton_eq.
  by apply bool_decide_eq_true_2.
Qed.

Lemma alter_const_Some {A} (t : gmap Z A) i x y :
  t !! i = Some x → alter (λ _, y) i t = <[i := y]> t.
Proof.
  intros E. apply map_eq; intros j. rewrite lookup_alter, lookup_insert.
  destruct (decide (i = j)) as [->|]; [by rewrite E|done].
Qed.

Lemma update_event_run db id (new_data : EventUpdate) :
  update_event next_id id new_data (get_session db) =
  match db !! id with
  | Some a =>
      let a' := model_dump_exclude_unset new_data ∪ a in
      (Ok 0%nat,
       mkSession (<[id := a']> db) (<[id := a']> db)
                 [mkEvent (Some id) a'] {[ id := 0%nat ]} [] [])
  | None =>
      (Raise (HTTPException 404 "Event with supplied ID does not exist"),
       get_session db)
  end.
Proof.
  unfold update_event, mbind, M_bind.
  unfold bind at 1. rewrite session_get_fresh.
  destruct (db !! id) as [a|] eqn:E; [|done].
  erewrite bind_ok; [|apply for_each_setattr].
  unfold set_objects; simpl. rewrite foldl_insert_dict.
  erewrite bind_ok; [|unfold session_add; rewrite persistent_single; done].
  erewrite bind_ok; cycle 1.
  { unfold session_commit. erewrite bind_ok; [|unfold flush; simpl; done].
    simpl. rewrite update_rows_single, (alter_const_Some _ _ a) by done. done. }
  erewrite bind_ok; cycle 1.
  { unfold session_refresh; simpl. rewrite lookup_insert_eq.
    rewrite persistent_single. done. }
  done.
Qed.


Lemma delete_event_run db id :
  delete_event next_id id (get_session db) =
  match db !! id with
  | Some a =>
      (Ok {[ "message" := "Event deleted successfully" ]},
       mkSession (delete id db) (delete id db)
                 [mkEvent (Some id) a] ∅ [] [])
  | None =>
      (Raise (HTTPException 404 "Event with supplied ID does not exist"),
       get_session db)
  end.
Proof.
  unfold delete_event, mbind, M_bind.
  unfold bind at 1. rewrite session_get_fresh.
  destruct (db !! id) as [a|] eqn:E; [|done].
  erewrite bind_ok; [|unfold session_delete; rewrite persistent_single; done].
  erewrite bind_ok; cycle 1.
  { unfold session_commit. erewrite bind_ok; [|unfold flush; simpl; done].
    unfold deleted_keys; simpl.
    rewrite update_rows_single, (alter_const_Some _ _ a), insert_id by done.
    rewrite delete_singleton_eq. done. }
  done.
Qed.

Lemma persistent_transient db t (e : Event) nw dl :
  persistent (mkSession db t [e] ∅ nw dl) 0 = false.
Proof.
  unfold persistent; simpl. destruct (pk e) as [i|]; [|done].
  rewrite lookup_empty. by apply bool_decide_eq_false_2.
Qed.

Lemma create_event_run db (e : Event) :
  with_body e (create_event next_id) (get_session db) =
  let key := default (next_id db) (pk e) in
  match db !! key with
  | Some _ => (Raise IntegrityError, mkSession db db [e] ∅ [0%nat] [])
  | None =>
      (Ok {[ "message" := "Event created successfully" ]},
       mkSession (<[key := attrs e]> db) (<[key := attrs e]> db)
                 [mkEvent (Some key) (attrs e)] {[ key := 0%nat ]} [] [])
  end.
Proof.
  unfold with_body, create_event, mbind, M_bind.
  erewrite bind_ok; [|unfold new_object; simpl; done].
  erewrite bind_ok; [|unfold session_add; rewrite persistent_transient; done].
  simpl. unfold bind at 1. unfold session_commit. unfold bind at 1.
  unfold flush; simpl. unfold insert_row; simpl.
  destruct (db !! default (next_id db) (pk e)) as [a|] eqn:E; [done|].
  simpl. rewrite update_rows_single.
  rewrite (alter_const_Some _ _ (attrs e)) by apply lookup_insert_eq.
  rewrite insert_insert_eq.
  unfold bind at 1. unfold session_refresh; simpl. rewrite lookup_insert_eq.
  rewrite persistent_single. done.
Qed.


(** ** The routes that load the whole table, run in a new session *)

Lemma index_rows_notin n ks im k :
  k ∉ ks → index_rows n ks im !! k = im !! k.
Proof.
  revert n im. induction ks as [|k' ks IH]; intros n im Hk; simpl; [done|].
  apply not_elem_of_cons in Hk as [Hne Hk].
  rewrite IH by done. by rewrite lookup_insert_ne.
Qed.

Lemma index_rows_lookup n ks im j k :
  NoDup ks → ks !! j = Some k →
  index_rows n ks im !! k = Some (n + j)%nat.
Proof.
  revert n im j. induction ks as [|k' ks IH]; intros n im j Hnd Hj; [done|].
  inversion Hnd as [|?? Hk' Hks]; subst. destruct j as [|j]; simpl in *.
  - injection Hj as ->. rewrite index_rows_notin by done.
    rewrite lookup_insert_eq. f_equal. lia.
  - rewrite (IH _ _ j) by done. f_equal. lia.
Qed.

Lemma map_each_fetch (l : list (Z * gmap string Value)) s :
  NoDup l.*1 →
  (∀ k, k ∈ l.*1 → identity_map s !! k = None) →
  map_each fetch l s =
  (Ok (seq (length (objects s)) (length l)),
   mkSession (database s) (txn s) (objects s ++ (row_object <$> l))
             (index_rows (length (objects s)) l.*1 (identity_map s))
             (new s) (deleted s)).
Proof.
  revert s. induction l as [|[k a] l IH]; intros s Hnd Him; simpl.
  - unfold ret. rewrite app_nil_r. by destruct s.
  - inversion Hnd as [|?? Hk Hl]; subst.
    unfold bind at 1. unfold fetch at 1. simpl.
    rewrite Him by apply list_elem_of_here.
    unfold bind at 1. rewrite IH; simpl; [|done|].
    + unfold ret. rewrite length_app, Nat.add_1_r, <- app_assoc. done.
    + intros k' Hk'. rewrite lookup_insert_ne; [|by intros ->].
      apply Him. by apply list_elem_of_further.
Qed.

Lemma update_rows_fresh db : update_rows (get_session db) = db.
Proof.
  unfold update_rows; simpl. apply map_eq; intros i.
  rewrite map_lookup_imap. rewrite lookup_empty. simpl.
  by destruct (db !! i).
Qed.

Lemma flush_fresh db : flush next_id (get_session db) = (Ok tt, get_session db).
Proof.
  unfold flush. simpl. unfold deleted_keys. simpl.
  by rewrite update_rows_fresh.
Qed.

Lemma session_exec_select_all_fresh db :
  session_exec_select_all next_id (get_session db) =
  (Ok (seq 0 (length (map_to_list db))), loaded_session db).
Proof.
  unfold session_exec_select_all. erewrite bind_ok; [|apply flush_fresh].
  rewrite map_each_fetch; [done|apply NoDup_fst_map_to_list|].
  intros k _. apply lookup_empty.
Qed.

Lemma deref_seq (pre : list Event) (l : list (Z * gmap string Value)) db t im nw dl :
  deref (mkSession db t (pre ++ (row_object <$> l)) im nw dl)
    <$> seq (length pre) (length l) = row_object <$> l.
Proof.
  revert pre. induction l as [|x l IH]; intros pre; [done|].
  rewrite !fmap_cons. cbn [length seq]. rewrite fmap_cons. f_equal.
  - unfold deref; simpl. by rewrite list_lookup_middle.
  - specialize (IH (pre ++ [row_object x])).
    rewrite length_app, Nat.add_1_r, <- app_assoc in IH. exact IH.
Qed.

Lemma retrieve_all_events_run db :
  retrieve_all_events next_id (get_session db) =
  (Ok (seq 0 (length (map_to_list db))), loaded_session db).
Proof.
  unfold retrieve_all_events, mbind, M_bind.
  erewrite bind_ok; [|apply session_exec_select_all_fresh]. done.
Qed.


Lemma persistent_loaded db t (l : list (Z * gmap string Value)) nw dl r :
  NoDup l.*1 → (r < length l)%nat →
  persistent (mkSession db t (row_object <$> l) (index_rows 0 l.*1 ∅) nw dl) r
  = true.
Proof.
  intros Hnd Hr. apply lookup_lt_is_Some_2 in Hr as [x Hx].
  unfold persistent; simpl. rewrite list_lookup_fmap, Hx. simpl.
  rewrite (index_rows_lookup 0 _ _ r) by (by rewrite ?list_lookup_fmap, ?Hx).
  by apply bool_decide_eq_true_2.
Qed.

Lemma for_each_session_delete rs s :
  (∀ r, r ∈ rs → persistent s r = true) →
  for_each rs session_delete s =
  (Ok tt,
   mkSession (database s) (txn s) (objects s) (identity_map s) (new s)
             (deleted s ++ rs)).
Proof.
  revert s. induction rs as [|r rs IH]; intros s Hp; simpl.
  - unfold ret. rewrite app_nil_r. by destruct s.
  - unfold bind at 1. unfold session_delete at 1.
    rewrite Hp by apply list_elem_of_here.
    rewrite IH; simpl; [by rewrite <- app_assoc|].
    intros r' Hr'. rewrite <- (Hp r') by (by apply list_elem_of_further). done.
Qed.

Lemma update_rows_loaded db d nw dl :
  update_rows (mkSession d db (row_object <$> map_to_list db)
                         (index_rows 0 (map_to_list db).*1 ∅) nw dl) = db.
Proof.
  unfold update_rows; simpl. apply map_eq; intros i.
  rewrite map_lookup_imap. destruct (db !! i) as [a|] eqn:E; [|done].
  apply elem_of_map_to_list, list_elem_of_lookup in E as [j Hj].
  simpl. rewrite (index_rows_lookup 0 _ _ j).
  - simpl. rewrite list_lookup_fmap, Hj. done.
  - apply NoDup_fst_map_to_list.
  - by rewrite list_lookup_fmap, Hj.
Qed.

Lemma omap_pk_seq (pre : list Event) (l : list (Z * gmap string Value)) :
  omap (λ r, (pre ++ (row_object <$> l)) !! r ≫= pk)
       (seq (length pre) (length l)) = l.*1.
Proof.
  revert pre. induction l as [|x l IH]; intros pre; [done|].
  rewrite !fmap_cons. cbn [length seq]. csimpl.
  rewrite list_lookup_middle by done. csimpl. f_equal.
  specialize (IH (pre ++ [row_object x])).
  rewrite length_app, Nat.add_1_r, <- app_assoc in IH. exact IH.
Qed.

Lemma deleted_keys_loaded db t (l : list (Z * gmap string Value)) im nw :
  deleted_keys (mkSession db t (row_object <$> l) im nw (seq 0 (length l)))
  = l.*1.
Proof. exact (omap_pk_seq [] l). Qed.

Lemma foldr_delete_keys {A} (m : gmap Z A) :
  foldr delete m (map_to_list m).*1 = ∅.
Proof.
  apply map_eq; intros i. rewrite lookup_empty.
  destruct (m !! i) as [a|] eqn:E.
  - apply lookup_foldr_delete. apply list_elem_of_fmap.
    exists (i, a). split; [done|]. by apply elem_of_map_to_list.
  - rewrite lookup_foldr_delete_not_elem_of; [done|].
    intros [[k a] [-> Hin]]%list_elem_of_fmap.
    apply elem_of_map_to_list in Hin. simpl in E. congruence.
Qed.

Lemma delete_all_events_run db :
  ∃ os im,
    delete_all_events next_id (get_session db) =
    if decide (db = ∅)
    then (Ok {[ "message" := "No events found to delete" ]},
          mkSession db db os im [] [])
    else (Ok {[ "message" := "All events deleted successfully" ]},
          mkSession ∅ ∅ os im [] []).
Proof.
  unfold delete_all_events, mbind, M_bind.
  unfold bind at 1. rewrite session_exec_select_all_fresh.
  destruct (decide (db = ∅)) as [->|Hne].
  - rewrite map_to_list_empty. simpl. by eexists _, _.
  - destruct (length (map_to_list db)) as [|n] eqn:Hn.
    { by apply nil_length_inv, map_to_list_empty_iff in Hn. }
    cbn [seq]. change (0%nat :: seq 1 n) with (seq 0 (S n)). rewrite <- Hn.
    erewrite bind_ok; cycle 1.
    { apply for_each_session_delete. intros r Hr%elem_of_seq.
      apply persistent_loaded; [apply NoDup_fst_map_to_list|lia]. }
    erewrite bind_ok; cycle 1.
    { unfold session_commit. erewrite bind_ok; [|unfold flush; simpl; done].
      unfold loaded_session. cbn [objects app].
      rewrite deleted_keys_loaded, update_rows_loaded, foldr_delete_keys.
      done. }
    by eexists _, _.
Qed.

(** ** The routes as requests *)

Lemma respond_retrieve_event db id :
  respond as_event (retrieve_event id) db =
  match db !! id with
  | Some a => (Ok (mkEvent (Some id) a), db)
  | None => (Raise event_not_found, db)
  end.
Proof.
  unfold respond. rewrite retrieve_event_run.
  by destruct (db !! id).
Qed.

Lemma respond_update_event db id (new_data : EventUpdate) :
  respond as_event (update_event next_id id new_data) db =
  match db !! id with
  | Some a =>
      let a' := model_dump_exclude_unset new_data ∪ a in
      (Ok (mkEvent (Some id) a'), <[id := a']> db)
  | None => (Raise event_not_found, db)
  end.
Proof.
  unfold respond. rewrite update_event_run.
  by destruct (db !! id).
Qed.

Lemma respond_delete_event db id :
  respond as_dict (delete_event next_id id) db =
  match db !! id with
  | Some a =>
      (Ok {[ "message" := "Event deleted successfully" ]}, delete id db)
  | None => (Raise event_not_found, db)
  end.
Proof.
  unfold respond. rewrite delete_event_run.
  by destruct (db !! id).
Qed.

Lemma respond_delete_all_events db :
  respond as_dict (delete_all_events next_id) db =
  if decide (db = ∅)
  then (Ok {[ "message" := "No events found to delete" ]}, db)
  else (Ok {[ "message" := "All events deleted successfully" ]}, ∅).
Proof.
  unfold respond. destruct (delete_all_events_run db) as (os & im & ->).
  by destruct (decide (db = ∅)).
Qed.

Lemma respond_retrieve_all_events db :
  respond as_events (retrieve_all_events next_id) db =
  (Ok (row_object <$> map_to_list db), db).
Proof.
  unfold respond. rewrite retrieve_all_events_run.
  unfold as_events, loaded_session. f_equal. f_equal.
  exact (deref_seq [] (map_to_list db) _ _ _ _ _).
Qed.

(** What [model_dump(exclude_unset=True)] holds. *)
Lemma model_dump_exclude_unset_lookup new_data (k : string) :
  model_dump_exclude_unset new_data !! k =
  if decide (k ∈ fields_set new_data) then field_values new_data !! k
  else None.
Proof.
  unfold model_dump_exclude_unset.
  destruct (decide (k ∈ fields_set new_data)) as [Hin|Hout].
  - destruct (field_values new_data !! k) as [v|] eqn:E.
    + by apply map_lookup_filter_Some.
    + apply map_lookup_filter_None. by left.
  - apply map_lookup_filter_None. right. intros v _. done.
Qed.

Lemma updated_row_lookup new_data a (k : string) :
  (model_dump_exclude_unset new_data ∪ a) !! k =
  if decide (k ∈ fields_set new_data)
  then match field_values new_data !! k with
       | Some v => Some v
       | None => a !! k
       end
  else a !! k.
Proof.
  rewrite lookup_union, model_dump_exclude_unset_lookup.
  destruct (decide (k ∈ fields_set new_data)).
  - destruct (field_values new_data !! k), (a !! k); done.
  - by destruct (a !! k).
Qed.

(** ** The claims about the routes *)

(** C3. For every id, [retrieve_event] returns the row of the Event table
    whose primary key is that id when there is one, and raises HTTP 404
    with the detail "Event with supplied ID does not exist" exactly when
    there is none; the table is read only. *)
Theorem retrieve_event_row_or_not_found db id :
  (∀ a, db !! id = Some a →
        respond as_event (retrieve_event id) db
        = (Ok (mkEvent (Some id) a), db)) ∧
  ((respond as_event (retrieve_event id) db).1
     = Raise (HTTPException HTTP_404_NOT_FOUND
                            "Event with supplied ID does not exist")
   ↔ db !! id = None).
Proof.
  rewrite respond_retrieve_event. split.
  - by intros a ->.
  - destruct (db !! id); simpl; split; done.
Qed.

(** C4. For every id, [delete_event] raises HTTP 404 exactly when the
    Event table has no row with that primary key; when it has one, the
    route removes that row and no other (looking the id up afterwards
    finds nothing, every other row is as before) and returns the message
    "Event deleted successfully". *)
Theorem delete_event_removes_exactly_row db id :
  ((∃ detail,
      (respond as_dict (delete_event next_id id) db).1
      = Raise (HTTPException HTTP_404_NOT_FOUND detail))
   ↔ db !! id = None) ∧
  (∀ a, db !! id = Some a →
     ∃ db',
       respond as_dict (delete_event next_id id) db
       = (Ok {[ "message" := "Event deleted successfully" ]}, db') ∧
       db' !! id = None ∧
       (respond as_event (retrieve_event id) db').1
       = Raise (HTTPException HTTP_404_NOT_FOUND
                              "Event with supplied ID does not exist") ∧
       ∀ j, j ≠ id → db' !! j = db !! j).
Proof.
  rewrite respond_delete_event. split.
  - destruct (db !! id); simpl; split; try done.
    + by intros [? ?].
    + intros _. by eexists.
  - intros a ->. exists (delete id db). split_and!; [done| | |].
    + apply lookup_delete_eq.
    + by rewrite respond_retrieve_event, lookup_delete_eq.
    + intros j Hj. by apply lookup_delete_ne.
Qed.

(** C1. For every id and every update payload, [update_event] raises HTTP
    404 exactly when the Event table has no row with that primary key.
    When the row exists, the fields explicitly set in the payload are
    overwritten with the payload's values, the fields left unset are not
    applied, the change is committed (the session has nothing pending and
    the database holds the new row), and the updated row is returned. *)
Theorem update_event_not_found_iff_else_overwrites db id
    (new_data : EventUpdate) :
  let out := update_event next_id id new_data (get_session db) in
  ((∃ detail, out.1 = Raise (HTTPException HTTP_404_NOT_FOUND detail))
   ↔ db !! id = None) ∧
  (∀ a, db !! id = Some a →
     ∃ event row,
       out.1 = Ok event ∧
       (∀ k v, k ∈ fields_set new_data →
               field_values new_data !! k = Some v → row !! k = Some v) ∧
       (∀ k, k ∉ fields_set new_data → row !! k = a !! k) ∧
       row = model_dump_exclude_unset new_data ∪ a ∧
       database out.2 = <[id := row]> db ∧
       txn out.2 = database out.2 ∧ new out.2 = [] ∧ deleted out.2 = [] ∧
       as_event out.2 event = mkEvent (Some id) row ∧
       respond as_event (update_event next_id id new_data) db
       = (Ok (mkEvent (Some id) row), <[id := row]> db)).
Proof.
  intros out. subst out. rewrite respond_update_event, update_event_run.
  split.
  - destruct (db !! id); simpl; split; try done.
    + by intros [? ?].
    + intros _. by eexists.
  - intros a ->. simpl.
    exists 0%nat, (model_dump_exclude_unset new_data ∪ a).
    split_and!; try done.
    + intros k v Hk Hv. rewrite updated_row_lookup.
      rewrite decide_True by done. by rewrite Hv.
    + intros k Hk. rewrite updated_row_lookup. by rewrite decide_False.
Qed.

(** C7. [update_event] changes at most the row with the given primary
    key: every other row of the Event table keeps all its fields, and in
    the updated row every field that the payload does not explicitly set
    keeps its previous value. *)
Theorem update_event_frame db id (new_data : EventUpdate) :
  let db' := (respond as_event (update_event next_id id new_data) db).2 in
  (∀ j, j ≠ id → db' !! j = db !! j) ∧
  (db !! id = None → db' = db) ∧
  (∀ a, db !! id = Some a →
     ∃ a', db' !! id = Some a' ∧
           ∀ k, k ∉ fields_set new_data → a' !! k = a !! k).
Proof.
  intros db'. subst db'. rewrite respond_update_event. split_and!.
  - intros j Hj. destruct (db !! id); simpl; [|done].
    by rewrite lookup_insert_ne.
  - by intros ->.
  - intros a ->. simpl. eexists. split; [apply lookup_insert_eq|].
    intros k Hk. rewrite updated_row_lookup. by rewrite decide_False.
Qed.

(** C9. For every existing id, [update_event] with a payload in which no
    field is explicitly set leaves the store as it is: the targeted row
    keeps every field, the rest of the table is unchanged, and the
    unchanged row is returned. *)
Theorem update_event_unset_payload_identity db id (new_data : EventUpdate) a :
  db !! id = Some a →
  fields_set new_data = ∅ →
  respond as_event (update_event next_id id new_data) db
  = (Ok (mkEvent (Some id) a), db).
Proof.
  intros Ha Hset. rewrite respond_update_event, Ha. simpl.
  assert (model_dump_exclude_unset new_data ∪ a = a) as ->.
  { apply map_eq; intros k. rewrite updated_row_lookup.
    rewrite decide_False; [done|]. rewrite Hset. set_solver. }
  by rewrite insert_id.
Qed.

(** C8. The only failure [retrieve_event], [update_event] and
    [delete_event] produce is the HTTP 404 for a missing row, and a
    request that ends with it leaves the Event table exactly as it was. *)
Theorem by_id_routes_fail_only_not_found db id (new_data : EventUpdate) e db' :
  (respond as_event (retrieve_event id) db = (Raise e, db') →
     e = HTTPException HTTP_404_NOT_FOUND
                       "Event with supplied ID does not exist"
     ∧ db !! id = None ∧ db' = db) ∧
  (respond as_event (update_event next_id id new_data) db = (Raise e, db') →
     e = HTTPException HTTP_404_NOT_FOUND
                       "Event with supplied ID does not exist"
     ∧ db !! id = None ∧ db' = db) ∧
  (respond as_dict (delete_event next_id id) db = (Raise e, db') →
     e = HTTPException HTTP_404_NOT_FOUND
                       "Event with supplied ID does not exist"
     ∧ db !! id = None ∧ db' = db).
Proof.
  rewrite respond_retrieve_event, respond_update_event, respond_delete_event.
  destruct (db !! id); simpl; split_and!; intros [= <- <-]; done.
Qed.

(** C2. [delete_all_events] on an empty Event table returns the message
    "No events found to delete" and leaves the store as it is; on a table
    that is not empty it removes every row, so that the table is empty
    afterwards, and returns "All events deleted successfully". *)
Theorem delete_all_events_empty_or_clears db :
  (db = ∅ →
     respond as_dict (delete_all_events next_id) db
     = (Ok {[ "message" := "No events found to delete" ]}, db)) ∧
  (db ≠ ∅ →
     respond as_dict (delete_all_events next_id) db
     = (Ok {[ "message" := "All events deleted successfully" ]}, ∅)).
Proof.
  rewrite respond_delete_all_events.
  destruct (decide (db = ∅)); split; done.
Qed.

(** C10. [delete_all_events] is idempotent on the store: from every
    starting state, calling it twice in a row leaves the same Event table,
    the empty one, as calling it once; the second call changes nothing
    and returns "No events found to delete". *)
Theorem delete_all_events_idempotent db :
  let once := respond as_dict (delete_all_events next_id) db in
  let twice := respond as_dict (delete_all_events next_id) once.2 in
  once.2 = ∅ ∧ twice.2 = once.2 ∧
  twice.1 = Ok {[ "message" := "No events found to delete" ]}.
Proof.
  intros once twice.
  assert (once.2 = ∅) as Hone.
  { subst once. rewrite respond_delete_all_events.
    by destruct (decide (db = ∅)). }
  subst twice. rewrite Hone, respond_delete_all_events.
  by rewrite decide_True.
Qed.

Lemma row_object_inj : Inj (=) (=) (@row_object Value).
Proof. intros [i a] [j b] [= -> ->]. done. Qed.

(** C5. For every state of the store, [retrieve_all_events] returns
    exactly the rows of the Event table, every one of them and nothing
    else, without pagination or truncation; it never fails, and returns
    the empty list when the table is empty. *)
Theorem retrieve_all_events_all_rows db :
  ∃ events,
    respond as_events (retrieve_all_events next_id) db = (Ok events, db) ∧
    (∀ e, e ∈ events ↔ ∃ id a, db !! id = Some a ∧ e = mkEvent (Some id) a) ∧
    length events = size db ∧
    NoDup events ∧
    (db = ∅ → events = []).
Proof.
  exists (row_object <$> map_to_list db).
  split_and!.
  - apply respond_retrieve_all_events.
  - intros e. rewrite list_elem_of_fmap. split.
    + intros [[id a] [-> Hin]]. exists id, a.
      by apply elem_of_map_to_list in Hin.
    + intros (id & a & Hin & ->). exists (id, a).
      split; [done|]. by apply elem_of_map_to_list.
  - by rewrite length_fmap, length_map_to_list.
  - apply (@NoDup_fmap_2 _ _ row_object row_object_inj), NoDup_map_to_list.
  - intros ->. by rewrite map_to_list_empty.
Qed.

Lemma respond_create_event db (new_event : @Event Value) :
  respond as_dict (with_body new_event (create_event next_id)) db =
  let key := default (next_id db) (pk new_event) in
  match db !! key with
  | Some _ => (Raise IntegrityError, db)
  | None =>
      (Ok {[ "message" := "Event created successfully" ]},
       <[key := attrs new_event]> db)
  end.
Proof.
  unfold respond. rewrite create_event_run. simpl.
  by destruct (db !! default (next_id db) (pk new_event)).
Qed.

(** X1. [create_event] with the primary key of an existing row: the INSERT
    violates the uniqueness of the key, the commit raises the integrity
    error, and the request leaves the Event table as it was. *)
Theorem create_event_existing_key_integrity_error db
    (new_event : @Event Value) i a :
  pk new_event = Some i →
  db !! i = Some a →
  respond as_dict (with_body new_event (create_event next_id)) db
  = (Raise IntegrityError, db).
Proof.
  intros Hpk Hrow. unfold respond. rewrite create_event_run. simpl.
  by rewrite Hpk; simpl; rewrite Hrow.
Qed.

(** ** How the routes compose *)

(** X5. Reading an event back after [update_event] gives what the update
    answered: the updated row when it exists, the same 404 when not. *)
Theorem update_event_then_retrieve db id new_data :
  let out := respond as_event (update_event next_id id new_data) db in
  respond as_event (retrieve_event id) out.2 = out.
Proof.
  intros out. subst out.
  rewrite respond_update_event, respond_retrieve_event.
  destruct (db !! id) as [a|] eqn:E; simpl.
  - by rewrite lookup_insert_eq.
  - by rewrite E.
Qed.

(** X6. [update_event] is idempotent: sending the same payload for the
    same id a second time answers as the first time and leaves the table
    as the first update left it. *)
Theorem update_event_idempotent db id new_data :
  let once := respond as_event (update_event next_id id new_data) db in
  respond as_event (update_event next_id id new_data) once.2 = once.
Proof.
  intros once. subst once. rewrite !respond_update_event.
  destruct (db !! id) as [a|] eqn:E; simpl.
  - rewrite lookup_insert_eq. simpl.
    rewrite (assoc_L (∪)), (idemp_L (∪)), insert_insert_eq. done.
  - by rewrite E.
Qed.

(** X7. Two updates of the same row compose field by field, the later
    one winning: a field takes the value of the second payload when that
    sets it, else the value of the first payload when that sets it, else
    it keeps the value it had. *)
Theorem update_event_twice_last_wins db id (p1 p2 : @EventUpdate Value) a :
  db !! id = Some a →
  let db1 := (respond as_event (update_event next_id id p1) db).2 in
  ∃ row,
    respond as_event (update_event next_id id p2) db1
    = (Ok (mkEvent (Some id) row), <[id := row]> db) ∧
    (∀ (k : string) v, k ∈ fields_set p2 → field_values p2 !! k = Some v →
                       row !! k = Some v) ∧
    (∀ (k : string) v, k ∉ fields_set p2 → k ∈ fields_set p1 →
                       field_values p1 !! k = Some v → row !! k = Some v) ∧
    (∀ k : string, k ∉ fields_set p2 → k ∉ fields_set p1 →
                   row !! k = a !! k).
Proof.
  intros Ha db1. subst db1. rewrite !respond_update_event, Ha. simpl.
  rewrite lookup_insert_eq. simpl. rewrite insert_insert_eq.
  eexists. split; [reflexivity|]. split_and!.
  - intros k v Hk Hv. rewrite updated_row_lookup, decide_True by done.
    by rewrite Hv.
  - intros k v Hk2 Hk1 Hv. rewrite updated_row_lookup, decide_False by done.
    rewrite updated_row_lookup, decide_True by done. by rewrite Hv.
  - intros k Hk2 Hk1. rewrite updated_row_lookup, decide_False by done.
    by rewrite updated_row_lookup, decide_False.
Qed.

(** X8. [update_event] never adds or removes a row: whatever the id and
    the payload, the table has the same primary keys afterwards. *)
Theorem update_event_keeps_keys db id new_data :
  dom (respond as_event (update_event next_id id new_data) db).2 = dom db.
Proof.
  rewrite respond_update_event.
  destruct (db !! id) as [a|] eqn:E; simpl; [|done].
  by rewrite dom_insert_lookup_L.
Qed.

(** X14. An update whose explicitly set fields all carry the values the
    row already has changes nothing: the row is returned as it was and
    the table is the same. *)
Theorem update_event_same_values_identity db id new_data a :
  db !! id = Some a →
  (∀ (k : string) v, k ∈ fields_set new_data →
                     field_values new_data !! k = Some v → a !! k = Some v) →
  respond as_event (update_event next_id id new_data) db
  = (Ok (mkEvent (Some id) a), db).
Proof.
  intros Ha Hsame. rewrite respond_update_event, Ha. simpl.
  assert (model_dump_exclude_unset new_data ∪ a = a) as ->.
  { apply map_eq; intros k. rewrite updated_row_lookup.
    destruct (decide (k ∈ fields_set new_data)) as [Hk|]; [|done].
    destruct (field_values new_data !! k) as [v|] eqn:Hv; [|done].
    by rewrite (Hsame k v). }
  by rewrite insert_id.
Qed.

(** X15. Updates of two different rows commute: in either order they
    leave the same table. *)
Theorem update_event_commute db id1 id2 (p1 p2 : @EventUpdate Value) :
  id1 ≠ id2 →
  (respond as_event (update_event next_id id2 p2)
     (respond as_event (update_event next_id id1 p1) db).2).2
  = (respond as_event (update_event next_id id1 p1)
       (respond as_event (update_event next_id id2 p2) db).2).2.
Proof.
  intros Hne. rewrite !respond_update_event.
  destruct (db !! id1) as [a1|] eqn:E1, (db !! id2) as [a2|] eqn:E2; simpl;
    rewrite ?respond_update_event, ?lookup_insert_ne, ?E1, ?E2 by done;
    simpl; [|done..].
  by apply insert_insert_ne.
Qed.

(** X9. Deleting the same id a second time raises the 404 and changes
    nothing, whether or not the first delete found the row. *)
Theorem delete_event_twice_not_found db id :
  let db1 := (respond as_dict (delete_event next_id id) db).2 in
  respond as_dict (delete_event next_id id) db1
  = (Raise (HTTPException HTTP_404_NOT_FOUND
                          "Event with supplied ID does not exist"), db1).
Proof.
  intros db1. subst db1. rewrite !respond_delete_event.
  destruct (db !! id) as [a|] eqn:E; simpl.
  - by rewrite lookup_delete_eq.
  - by rewrite E.
Qed.

(** X16. Deletes commute: deleting two ids in either order leaves the
    same table. *)
Theorem delete_event_commute db id1 id2 :
  (respond as_dict (delete_event next_id id2)
     (respond as_dict (delete_event next_id id1) db).2).2
  = (respond as_dict (delete_event next_id id1)
       (respond as_dict (delete_event next_id id2) db).2).2.
Proof.
  assert (∀ id db, (respond as_dict (delete_event next_id id) db).2
                   = delete id db) as Hdel.
  { intros id db0. rewrite respond_delete_event.
    destruct (db0 !! id) eqn:E; simpl; [done|].
    by rewrite delete_id. }
  rewrite !Hdel. apply delete_delete.
Qed.

(** X10. A deleted event can be posted again: deleting a row and then
    creating an event with the same primary key and attributes gives the
    table back as it was. *)
Theorem delete_event_then_create_restores db id a :
  db !! id = Some a →
  respond as_dict (with_body (mkEvent (Some id) a) (create_event next_id))
          (respond as_dict (delete_event next_id id) db).2
  = (Ok {[ "message" := "Event created successfully" ]}, db).
Proof.
  intros Ha. rewrite respond_delete_event, Ha. simpl.
  rewrite respond_create_event. simpl. rewrite lookup_delete_eq.
  by rewrite insert_delete_eq, insert_id.
Qed.

(** X17. Posting an event that carries a primary key a second time
    fails: whatever the first request did, the second one ends with the
    integrity error and leaves the table as the first one left it. *)
Theorem create_event_twice_same_key_fails db (new_event : @Event Value) i :
  pk new_event = Some i →
  let db1 :=
    (respond as_dict (with_body new_event (create_event next_id)) db).2 in
  respond as_dict (with_body new_event (create_event next_id)) db1
  = (Raise IntegrityError, db1).
Proof.
  intros Hpk db1. subst db1. rewrite !respond_create_event, Hpk. simpl.
  destruct (db !! i) as [a|] eqn:E; simpl.
  - by rewrite E.
  - by rewrite lookup_insert_eq.
Qed.

(** X11. The list of [retrieve_all_events] and the lookups of
    [retrieve_event] agree: an event is in the list exactly when
    retrieving some id returns it. *)
Theorem retrieve_all_events_agrees_with_retrieve_event db
    (e : @Event Value) :
  ∃ events,
    respond as_events (retrieve_all_events next_id) db = (Ok events, db) ∧
    (e ∈ events ↔
     ∃ id, (respond as_event (retrieve_event id) db).1 = Ok e).
Proof.
  destruct (retrieve_all_events_all_rows db) as (events & Hall & Hin & _).
  exists events. split; [done|]. rewrite Hin. split.
  - intros (id & a & Ha & ->). exists id.
    by rewrite respond_retrieve_event, Ha.
  - intros (id & Hget). rewrite respond_retrieve_event in Hget.
    destruct (db !! id) as [a|] eqn:Ha; simpl in Hget; [|done].
    injection Hget as <-. by exists id, a.
Qed.

(** X12. After [delete_all_events] nothing is left to address: the list
    of all events is empty, and retrieving, updating or deleting any id
    raises the 404. *)
Theorem delete_all_events_then_nothing_found db id new_data :
  let db' := (respond as_dict (delete_all_events next_id) db).2 in
  respond as_events (retrieve_all_events next_id) db' = (Ok [], db') ∧
  respond as_event (retrieve_event id) db' = (Raise event_not_found, db') ∧
  respond as_event (update_event next_id id new_data) db'
  = (Raise event_not_found, db') ∧
  respond as_dict (delete_event next_id id) db' = (Raise event_not_found, db').
Proof.
  intros db'. assert (db' = ∅) as ->.
  { subst db'. rewrite respond_delete_all_events.
    by destruct (decide (db = ∅)). }
  rewrite respond_retrieve_all_events, respond_retrieve_event,
    respond_update_event, respond_delete_event.
  by rewrite map_to_list_empty, lookup_empty.
Qed.


(** ** The router *)

Lemma event_router_db (req : @Request Value) db :
  (event_router next_id req db).2 =
  match req with
  | GET_events | GET_event _ => db
  | POST_new new_event =>
      let key := default (next_id db) (pk new_event) in
      match db !! key with
      | Some _ => db
      | None => <[key := attrs new_event]> db
      end
  | PUT_edit id new_data =>
      match db !! id with
      | Some a => <[id := model_dump_exclude_unset new_data ∪ a]> db
      | None => db
      end
  | DELETE_event id => delete id db
  | DELETE_events => ∅
  end.
Proof.
  destruct req as [|id|new_event|id new_data|id|]; unfold event_router, tagged;
    simpl.
  - by rewrite respond_retrieve_all_events.
  - rewrite respond_retrieve_event. by destruct (db !! id).
  - rewrite respond_create_event. simpl.
    by destruct (db !! default (next_id db) (pk new_event)).
  - rewrite respond_update_event. by destruct (db !! id).
  - rewrite respond_delete_event.
    destruct (db !! id) eqn:E; simpl; [done|]. by rewrite delete_id.
  - rewrite respond_delete_all_events. by destruct (decide (db = ∅)).
Qed.

(** X19. A request that fails, on any of the six routes and with any
    exception, leaves the Event table exactly as it was. *)
Theorem event_router_failure_keeps_table (req : @Request Value) db e db' :
  event_router next_id req db = (Raise e, db') → db' = db.
Proof.
  destruct req as [|id|new_event|id new_data|id|]; unfold event_router, tagged.
  - rewrite respond_retrieve_all_events. by intros [= _ <-].
  - rewrite respond_retrieve_event.
    destruct (db !! id); intros [= _ <-]; done.
  - rewrite respond_create_event. simpl.
    destruct (db !! default (next_id db) (pk new_event)); intros [= _ <-];
      done.
  - rewrite respond_update_event.
    destruct (db !! id); simpl; [done|]. by intros [= _ <-].
  - rewrite respond_delete_event.
    destruct (db !! id); simpl; [done|]. by intros [= _ <-].
  - rewrite respond_delete_all_events.
    destruct (decide (db = ∅)); simpl; done.
Qed.

(** X20. The routes fail in two ways only: with the 404 of a by-id route
    whose row is missing, and with the integrity error of a post whose
    primary key is taken.  No request ends with any other exception, and
    listing or deleting all events never fails. *)
Theorem event_router_failures (req : @Request Value) db e :
  (event_router next_id req db).1 = Raise e →
  (e = HTTPException HTTP_404_NOT_FOUND
                     "Event with supplied ID does not exist" ∧
   ∃ id, db !! id = None ∧
         (req = GET_event id ∨ (∃ new_data, req = PUT_edit id new_data) ∨
          req = DELETE_event id)) ∨
  (e = IntegrityError ∧
   ∃ new_event, req = POST_new new_event ∧
                is_Some (db !! default (next_id db) (pk new_event))).
Proof.
  destruct req as [|id|new_event|id new_data|id|]; unfold event_router, tagged.
  - by rewrite respond_retrieve_all_events.
  - rewrite respond_retrieve_event.
    destruct (db !! id) eqn:E; simpl; [done|]. intros [= <-].
    left. split; [done|]. exists id. auto.
  - rewrite respond_create_event. simpl.
    destruct (db !! default (next_id db) (pk new_event)) eqn:E; simpl;
      [|done].
    intros [= <-]. right. split; [done|]. exists new_event.
    split; [done|]. by rewrite E.
  - rewrite respond_update_event.
    destruct (db !! id) eqn:E; simpl; [done|]. intros [= <-].
    left. split; [done|]. exists id. eauto.
  - rewrite respond_delete_event.
    destruct (db !! id) eqn:E; simpl; [done|]. intros [= <-].
    left. split; [done|]. exists id. auto.
  - rewrite respond_delete_all_events.
    by destruct (decide (db = ∅)).
Qed.

Lemma serve_cons (req : @Request Value) reqs db :
  serve next_id (req :: reqs) db
  = serve next_id reqs (event_router next_id req db).2.
Proof. done. Qed.

(** X24. Reading never writes: after any sequence of list and retrieve
    requests, found or not, the table is the one before. *)
Theorem serve_gets_keep_table (reqs : list (@Request Value)) db :
  Forall (λ req, is_get req = true) reqs → serve next_id reqs db = db.
Proof.
  intros Hall. induction Hall as [|req reqs Hreq _ IH]; [done|].
  rewrite serve_cons, event_router_db. by destruct req.
Qed.

(** X21. Rows are only ever created by posts: over any sequence of
    requests without a post, every primary key of the final table was
    already a key of the initial one. *)
Theorem serve_without_post_no_new_keys (reqs : list (@Request Value)) db :
  Forall (λ req, is_post req = false) reqs →
  dom (serve next_id reqs db) ⊆ dom db.
Proof.
  intros Hall. revert db.
  induction Hall as [|req reqs Hreq _ IH]; intros db; [done|].
  rewrite serve_cons. etrans; [apply IH|]. rewrite event_router_db.
  destruct req as [|id|new_event|id new_data|id|]; try done.
  - destruct (db !! id) as [a|] eqn:E; [|done].
    by rewrite dom_insert_lookup_L.
  - apply subseteq_dom, delete_subseteq.
Qed.

(** X22. Rows are only ever removed by deletes: over any sequence of
    requests without a delete, every primary key of the initial table is
    still a key of the final one. *)
Theorem serve_without_delete_keeps_keys (reqs : list (@Request Value)) db :
  Forall (λ req, is_delete req = false) reqs →
  dom db ⊆ dom (serve next_id reqs db).
Proof.
  intros Hall. revert db.
  induction Hall as [|req reqs Hreq _ IH]; intros db; [done|].
  rewrite serve_cons. etrans; [|apply IH]. rewrite event_router_db.
  destruct req as [|id|new_event|id new_data|id|]; try done.
  - simpl. destruct (db !! default (next_id db) (pk new_event)); [done|].
    apply dom_insert_subseteq.
  - destruct (db !! id) as [a|] eqn:E; [|done].
    apply dom_insert_subseteq.
Qed.

(** X23. A row changes only through requests addressed to it: over any
    sequence of requests that contains no edit and no delete of its id
    and no delete of all events, an existing row keeps all its fields,
    whatever is posted, edited or deleted elsewhere. *)
Theorem serve_untouched_row_unchanged (reqs : list (@Request Value)) db id a :
  db !! id = Some a →
  Forall (λ req, touches id req = false) reqs →
  serve next_id reqs db !! id = Some a.
Proof.
  intros Ha Hall. revert db Ha.
  induction Hall as [|req reqs Hreq _ IH]; intros db Ha; [done|].
  rewrite serve_cons. apply IH. rewrite event_router_db.
  destruct req as [| |new_event|j new_data|j|]; try done.
  - simpl. destruct (db !! default (next_id db) (pk new_event)) eqn:E;
      [done|].
    rewrite lookup_insert_ne; [done|]. intros Heq. congruence.
  - simpl in Hreq. apply bool_decide_eq_false in Hreq.
    destruct (db !! j); [|done]. by rewrite lookup_insert_ne.
  - simpl in Hreq. apply bool_decide_eq_false in Hreq.
    by rewrite lookup_delete_ne.
Qed.

Lemma serve_deletes (ks : list Z) db :
  serve next_id (DELETE_event <$> ks) db = foldl (λ m k, delete k m) db ks.
Proof.
  revert db. induction ks as [|k ks IH]; intros db; [done|].
  rewrite fmap_cons, serve_cons, event_router_db. apply IH.
Qed.

Lemma lookup_foldl_delete {A} (ks : list Z) (m : gmap Z A) i :
  foldl (λ m k, delete k m) m ks !! i
  = if decide (i ∈ ks) then None else m !! i.
Proof.
  revert m. induction ks as [|k ks IH]; intros m.
  - destruct (decide (i ∈ [])) as [Hin|]; [|done].
    by apply not_elem_of_nil in Hin.
  - cbn [foldl]. rewrite IH.
    destruct (decide (i ∈ ks)) as [Hin|Hout],
             (decide (i ∈ k :: ks)) as [Hin'|Hout']; try done.
    + destruct Hout'. by apply list_elem_of_further.
    + apply elem_of_cons in Hin' as [->|?]; [|done].
      apply lookup_delete_eq.
    + apply lookup_delete_ne. intros ->. apply Hout', list_elem_of_here.
Qed.

(** X25. Deleting all events at once is the same as deleting them one by
    one: served with a delete for every key in the table, in any order
    and with any other ids among them, the table ends as
    [delete_all_events] leaves it. *)
Theorem serve_delete_each_is_delete_all (ks : list Z) db :
  (∀ i, is_Some (db !! i) → i ∈ ks) →
  serve next_id (DELETE_event <$> ks) db
  = serve next_id [DELETE_events] db.
Proof.
  intros Hall. rewrite serve_deletes.
  change (serve next_id [DELETE_events] db)
    with (event_router next_id DELETE_events db).2.
  rewrite event_router_db. apply map_eq; intros i.
  rewrite lookup_foldl_delete, lookup_empty.
  destruct (decide (i ∈ ks)) as [|Hout]; [done|].
  destruct (db !! i) eqn:E; [|done].
  destruct Hout. apply Hall. by rewrite E.
Qed.

(** X27. After [delete_event] the deleted event is gone from the list of
    all events and every other event is listed as before. *)
Theorem delete_event_then_retrieve_all db id (e : @Event Value) :
  let db' := (respond as_dict (delete_event next_id id) db).2 in
  ∃ before after,
    respond as_events (retrieve_all_events next_id) db = (Ok before, db) ∧
    respond as_events (retrieve_all_events next_id) db' = (Ok after, db') ∧
    (e ∈ after ↔ e ∈ before ∧ pk e ≠ Some id).
Proof.
  intros db'.
  destruct (retrieve_all_events_all_rows db) as (before & Hb & Hinb & _).
  destruct (retrieve_all_events_all_rows db') as (after & Ha & Hina & _).
  exists before, after. split_and!; [done|done|].
  assert (db' = delete id db) as ->.
  { subst db'. rewrite respond_delete_event.
    destruct (db !! id) eqn:E; simpl; [done|]. by rewrite delete_id. }
  rewrite Hina, Hinb. split.
  - intros (j & a & Hj & ->). apply lookup_delete_Some in Hj as [Hne Hj].
    split; [by exists j, a|]. simpl. congruence.
  - intros [(j & a & Hj & ->) Hne]. exists j, a. split; [|done].
    apply lookup_delete_Some. split; [|done]. simpl in Hne. congruence.
Qed.

Section create.

(** The database never generates a key that is in use. *)
Hypothesis next_id_fresh : ∀ db, db !! next_id db = None.

Lemma create_event_key_free db (new_event : @Event Value) :
  (∀ i, pk new_event = Some i → db !! i = None) →
  db !! default (next_id db) (pk new_event) = None.
Proof using next_id_fresh.
  intros Hfree. destruct (pk new_event) as [i|]; simpl; [by apply Hfree|].
  apply next_id_fresh.
Qed.

(** C6, amended. For every input event whose primary key is unset or is
    not the key of a row of the Event table, [create_event] inserts that
    single row, under the given key or under the one the database
    generates, commits, and returns the fixed message
    "Event created successfully"; the message is the same for every such
    input. *)
Theorem create_event_inserts_when_key_free db (new_event : @Event Value) :
  (∀ i, pk new_event = Some i → db !! i = None) →
  let key := default (next_id db) (pk new_event) in
  let out := with_body new_event (create_event next_id) (get_session db) in
  out.1 = Ok {[ "message" := "Event created successfully" ]} ∧
  db !! key = None ∧
  database out.2 = <[key := attrs new_event]> db ∧
  txn out.2 = database out.2 ∧ new out.2 = [] ∧ deleted out.2 = [] ∧
  respond as_dict (with_body new_event (create_event next_id)) db
  = (Ok {[ "message" := "Event created successfully" ]},
     <[key := attrs new_event]> db) ∧
  (∀ db2 (event2 : @Event Value),
     (∀ i, pk event2 = Some i → db2 !! i = None) →
     (with_body event2 (create_event next_id) (get_session db2)).1 = out.1).
Proof using next_id_fresh.
  intros Hfree key out. subst key out.
  rewrite respond_create_event, create_event_run. simpl.
  rewrite (create_event_key_free _ _ Hfree). simpl.
  split_and!; try done.
  intros db2 event2 Hfree2. rewrite create_event_run. simpl.
  by rewrite (create_event_key_free _ _ Hfree2).
Qed.


(** X2. A created event can be read back: after [create_event] succeeds,
    [retrieve_event] on the key of the new row, the given one or the
    generated one, returns the event with the attributes that were
    posted. *)
Theorem create_event_then_retrieve db (new_event : @Event Value) :
  (∀ i, pk new_event = Some i → db !! i = None) →
  let key := default (next_id db) (pk new_event) in
  let db' :=
    (respond as_dict (with_body new_event (create_event next_id)) db).2 in
  respond as_event (retrieve_event key) db'
  = (Ok (mkEvent (Some key) (attrs new_event)), db').
Proof using next_id_fresh.
  intros Hfree key db'. subst key db'.
  rewrite respond_create_event. simpl.
  rewrite (create_event_key_free _ _ Hfree). simpl.
  by rewrite respond_retrieve_event, lookup_insert_eq.
Qed.

(** X3. [create_event] adds one row and touches no other: every row of
    the table is still there with the same fields, and the table has
    exactly one key more, that of the new row. *)
Theorem create_event_adds_one_row db (new_event : @Event Value) :
  (∀ i, pk new_event = Some i → db !! i = None) →
  let key := default (next_id db) (pk new_event) in
  let db' :=
    (respond as_dict (with_body new_event (create_event next_id)) db).2 in
  (∀ j, j ≠ key → db' !! j = db !! j) ∧
  (∀ j a, db !! j = Some a → db' !! j = Some a) ∧
  dom db' = {[ key ]} ∪ dom db ∧
  size db' = S (size db).
Proof using next_id_fresh.
  intros Hfree key db'. subst key db'.
  rewrite respond_create_event. simpl.
  pose proof (create_event_key_free _ _ Hfree) as Hkey.
  rewrite Hkey. simpl. split_and!.
  - intros j Hj. by rewrite lookup_insert_ne.
  - intros j a Ha. rewrite lookup_insert_ne; [done|]. intros <-. congruence.
  - apply dom_insert_L.
  - by apply map_size_insert_None.
Qed.

(** X4. Deleting a newly created event undoes the creation: the table is
    again the one before the post. *)
Theorem create_event_then_delete_restores db (new_event : @Event Value) :
  (∀ i, pk new_event = Some i → db !! i = None) →
  let key := default (next_id db) (pk new_event) in
  let db' :=
    (respond as_dict (with_body new_event (create_event next_id)) db).2 in
  respond as_dict (delete_event next_id key) db'
  = (Ok {[ "message" := "Event deleted successfully" ]}, db).
Proof using next_id_fresh.
  intros Hfree key db'. subst key db'.
  rewrite respond_create_event. simpl.
  pose proof (create_event_key_free _ _ Hfree) as Hkey.
  rewrite Hkey. simpl.
  rewrite respond_delete_event, lookup_insert_eq.
  by rewrite delete_insert_eq, delete_id.
Qed.

(** X18. Events posted without a primary key never collide: two such
    posts in a row both succeed, are stored under two different generated
    keys, and the table has two rows more. *)
Theorem create_event_twice_unset_key db (e1 e2 : @Event Value) :
  pk e1 = None → pk e2 = None →
  let db1 := (respond as_dict (with_body e1 (create_event next_id)) db).2 in
  let out2 := respond as_dict (with_body e2 (create_event next_id)) db1 in
  out2.1 = Ok {[ "message" := "Event created successfully" ]} ∧
  next_id db ≠ next_id db1 ∧
  out2.2 !! next_id db = Some (attrs e1) ∧
  out2.2 !! next_id db1 = Some (attrs e2) ∧
  size out2.2 = S (S (size db)).
Proof using next_id_fresh.
  intros H1 H2 db1 out2. subst out2.
  assert (db1 = <[next_id db := attrs e1]> db) as Hdb1.
  { subst db1. rewrite respond_create_event, H1. simpl.
    by rewrite next_id_fresh. }
  rewrite respond_create_event, H2. simpl. rewrite next_id_fresh. simpl.
  assert (next_id db ≠ next_id db1) as Hne.
  { intros Heq. pose proof (next_id_fresh db1) as Hf.
    rewrite <- Heq, Hdb1 in Hf. by rewrite lookup_insert_eq in Hf. }
  split_and!; [done|done| | |].
  - rewrite lookup_insert_ne by done. rewrite Hdb1. apply lookup_insert_eq.
  - apply lookup_insert_eq.
  - rewrite map_size_insert_None by apply next_id_fresh.
    rewrite Hdb1. by rewrite map_size_insert_None by apply next_id_fresh.
Qed.

(** X26. A created event shows up in the list of all events, next to
    every event that was listed before. *)
Theorem create_event_then_retrieve_all db (new_event e : @Event Value) :
  (∀ i, pk new_event = Some i → db !! i = None) →
  let key := default (next_id db) (pk new_event) in
  let db' :=
    (respond as_dict (with_body new_event (create_event next_id)) db).2 in
  ∃ before after,
    respond as_events (retrieve_all_events next_id) db = (Ok before, db) ∧
    respond as_events (retrieve_all_events next_id) db' = (Ok after, db') ∧
    (e ∈ after ↔ e = mkEvent (Some key) (attrs new_event) ∨ e ∈ before).
Proof using next_id_fresh.
  intros Hfree key db'.
  destruct (retrieve_all_events_all_rows db) as (before & Hb & Hinb & _).
  destruct (retrieve_all_events_all_rows db') as (after & Ha & Hina & _).
  exists before, after. split_and!; [done|done|].
  pose proof (create_event_key_free _ _ Hfree) as Hkey. fold key in Hkey.
  assert (db' = <[key := attrs new_event]> db) as ->.
  { subst db'. rewrite respond_create_event. simpl. fold key.
    by rewrite Hkey. }
  rewrite Hina, Hinb. split.
  - intros (j & a & Hj & ->).
    apply lookup_insert_Some in Hj as [[<- <-]|[Hne Hj]]; [by left|].
    right. by exists j, a.
  - intros [->|(j & a & Hj & ->)].
    + exists key, (attrs new_event). by rewrite lookup_insert_eq.
    + exists j, a. split; [|done]. rewrite lookup_insert_ne; [done|].
      intros <-. congruence.
Qed.

End create.

End properties.

(** * The routes on a concrete store *)

Lemma le_foldr_max (k : Z) (ks : list Z) : k ∈ ks → k ≤ foldr Z.max 0 ks.
Proof.
  induction ks as [|k' ks IH]; intros Hk; [by apply not_elem_of_nil in Hk|].
  apply elem_of_cons in Hk as [->|Hk]; simpl; [lia|].
  specialize (IH Hk). lia.
Qed.

Lemma max_id_succ_fresh {V} (t : gmap Z V) : t !! max_id_succ t = None.
Proof.
  destruct (t !! max_id_succ t) as [v|] eqn:E; [|done].
  assert (max_id_succ t ∈ (map_to_list t).*1) as Hin.
  { apply list_elem_of_fmap. exists (max_id_succ t, v).
    split; [done|]. by apply elem_of_map_to_list. }
  apply le_foldr_max in Hin. unfold max_id_succ in Hin at 1. lia.
Qed.

Lemma retrieve_event_row_or_not_found_witness :
  respond as_event (retrieve_event 2) sample_db
  = (Ok (mkEvent (Some 2) (sample_attrs "PyCon" "Lahore")), sample_db).
Proof.
  apply (proj1 (retrieve_event_row_or_not_found sample_db 2)).
  vm_compute. reflexivity.
Defined.

Lemma delete_event_removes_exactly_row_witness :
  ∃ db',
    respond as_dict (delete_event max_id_succ 2) sample_db
    = (Ok {[ "message" := "Event deleted successfully" ]}, db') ∧
    db' !! 2 = None ∧
    (respond as_event (retrieve_event 2) db').1
    = Raise (HTTPException HTTP_404_NOT_FOUND
                           "Event with supplied ID does not exist") ∧
    ∀ j, j ≠ 2 → db' !! j = sample_db !! j.
Proof.
  apply (proj2 (delete_event_removes_exactly_row max_id_succ sample_db 2)
               (sample_attrs "PyCon" "Lahore")).
  vm_compute. reflexivity.
Defined.

Lemma update_event_not_found_iff_else_overwrites_witness :
  respond as_event (update_event max_id_succ 2 sample_update) sample_db
  = (Ok (mkEvent (Some 2) (sample_attrs "PyCon 2024" "Lahore")),
     <[2 := sample_attrs "PyCon 2024" "Lahore"]> sample_db).
Proof.
  destruct (proj2 (update_event_not_found_iff_else_overwrites
                     max_id_succ sample_db 2 sample_update)
                  (sample_attrs "PyCon" "Lahore"))
    as (event & row & _ & _ & _ & Hrow & _ & _ & _ & _ & _ & Hout).
  { vm_compute. reflexivity. }
  rewrite Hout, Hrow. vm_compute. reflexivity.
Defined.

Lemma update_event_frame_witness :
  ∃ a',
    (respond as_event (update_event max_id_succ 2 sample_update) sample_db).2
      !! 2 = Some a' ∧
    ∀ k, k ∉ fields_set sample_update →
         a' !! k = sample_attrs "PyCon" "Lahore" !! k.
Proof.
  apply (proj2 (proj2 (update_event_frame max_id_succ sample_db 2
                                          sample_update))).
  vm_compute. reflexivity.
Defined.

Lemma update_event_unset_payload_identity_witness :
  respond as_event (update_event max_id_succ 2 unset_update) sample_db
  = (Ok (mkEvent (Some 2) (sample_attrs "PyCon" "Lahore")), sample_db).
Proof.
  apply update_event_unset_payload_identity.
  - vm_compute. reflexivity.
  - reflexivity.
Defined.

Lemma by_id_routes_fail_only_not_found_witness :
  event_not_found
  = HTTPException HTTP_404_NOT_FOUND "Event with supplied ID does not exist"
  ∧ sample_db !! 5 = None ∧ sample_db = sample_db.
Proof.
  apply (proj1 (proj2 (by_id_routes_fail_only_not_found
                         max_id_succ sample_db 5 sample_update
                         event_not_found sample_db))).
  vm_compute. reflexivity.
Defined.

Lemma delete_all_events_empty_or_clears_witness :
  respond as_dict (delete_all_events max_id_succ) sample_db
  = (Ok {[ "message" := "All events deleted successfully" ]}, ∅).
Proof.
  apply (proj2 (delete_all_events_empty_or_clears max_id_succ sample_db)).
  intros Hempty. apply (f_equal (λ db, db !! 1)) in Hempty.
  vm_compute in Hempty. discriminate Hempty.
Defined.

Lemma create_event_inserts_when_key_free_witness :
  let new_event := mkEvent None (sample_attrs "DjangoCon" "Karachi") in
  let out :=
    with_body new_event (create_event max_id_succ) (get_session sample_db) in
  out.1 = Ok {[ "message" := "Event created successfully" ]} ∧
  sample_db !! 3 = None ∧
  database out.2 = <[3 := attrs new_event]> sample_db.
Proof.
  intros new_event out.
  destruct (create_event_inserts_when_key_free
              max_id_succ max_id_succ_fresh sample_db new_event)
    as (Hmsg & Hfree & Hdb & _).
  { intros i [=]. }
  split_and!; [exact Hmsg | exact Hfree | exact Hdb].
Defined.

(** C6, as stated, fails: an event posted with the primary key of a row
    that is already in the table is not inserted; the commit violates the
    uniqueness of the key, the request ends with the integrity error
    instead of the message, and the table is left as it was. *)
Lemma create_event_duplicate_key_fails :
  let new_event := mkEvent (Some 1) (sample_attrs "Duplicate" "Elsewhere") in
  let out :=
    respond as_dict (with_body new_event (create_event max_id_succ))
            sample_db in
  out = (Raise IntegrityError, sample_db) ∧
  out.1 ≠ Ok {[ "message" := "Event created successfully" ]} ∧
  out.2 !! 1 ≠ Some (attrs new_event).
Proof.
  intros new_event out.
  assert (out = (Raise IntegrityError, sample_db)) as ->
    by (vm_compute; reflexivity).
  split_and!; [done|done|].
  vm_compute. intros [=].
Qed.

Lemma create_event_existing_key_integrity_error_witness :
  respond as_dict
          (with_body (mkEvent (Some 2) (sample_attrs "PyCon" "Multan"))
                     (create_event max_id_succ))
          sample_db
  = (Raise IntegrityError, sample_db).
Proof.
  apply (create_event_existing_key_integrity_error
           max_id_succ sample_db _ 2 (sample_attrs "PyCon" "Lahore")).
  - reflexivity.
  - vm_compute. reflexivity.
Defined.

(** ** Compositions and sequences of requests on the concrete store *)

Lemma sample_event_key_free :
  ∀ i, pk sample_event = Some i → sample_db !! i = None.
Proof. intros i [=]. Qed.

Lemma create_event_then_retrieve_witness :
  let db' :=
    (respond as_dict (with_body sample_event (create_event max_id_succ))
             sample_db).2 in
  respond as_event (retrieve_event 3) db'
  = (Ok (mkEvent (Some 3) (sample_attrs "DjangoCon" "Karachi")), db').
Proof.
  exact (create_event_then_retrieve max_id_succ max_id_succ_fresh
           sample_db sample_event sample_event_key_free).
Defined.

Lemma create_event_adds_one_row_witness :
  let db' :=
    (respond as_dict (with_body sample_event (create_event max_id_succ))
             sample_db).2 in
  (∀ j, j ≠ 3 → db' !! j = sample_db !! j) ∧
  (∀ j a, sample_db !! j = Some a → db' !! j = Some a) ∧
  dom db' = {[ 3 ]} ∪ dom sample_db ∧
  size db' = S (size sample_db).
Proof.
  exact (create_event_adds_one_row max_id_succ max_id_succ_fresh
           sample_db sample_event sample_event_key_free).
Defined.

Lemma create_event_then_delete_restores_witness :
  respond as_dict (delete_event max_id_succ 3)
    (respond as_dict (with_body sample_event (create_event max_id_succ))
             sample_db).2
  = (Ok {[ "message" := "Event deleted successfully" ]}, sample_db).
Proof.
  exact (create_event_then_delete_restores max_id_succ max_id_succ_fresh
           sample_db sample_event sample_event_key_free).
Defined.

Lemma create_event_twice_unset_key_witness :
  let db1 :=
    (respond as_dict (with_body sample_event (create_event max_id_succ))
             sample_db).2 in
  let out2 :=
    respond as_dict (with_body sample_event (create_event max_id_succ)) db1 in
  out2.1 = Ok {[ "message" := "Event created successfully" ]} ∧
  out2.2 !! 3 = Some (sample_attrs "DjangoCon" "Karachi") ∧
  out2.2 !! 4 = Some (sample_attrs "DjangoCon" "Karachi") ∧
  size out2.2 = 4%nat.
Proof.
  intros db1 out2.
  destruct (create_event_twice_unset_key max_id_succ max_id_succ_fresh
              sample_db sample_event sample_event eq_refl eq_refl)
    as (Hmsg & _ & Hfirst & Hsecond & Hsize).
  split_and!; [exact Hmsg | exact Hfirst | exact Hsecond | exact Hsize].
Defined.

Lemma update_event_twice_last_wins_witness :
  ∃ row,
    respond as_event (update_event max_id_succ 2 sample_update_location)
      (respond as_event (update_event max_id_succ 2 sample_update)
               sample_db).2
    = (Ok (mkEvent (Some 2) row), <[2 := row]> sample_db) ∧
    row !! "title" = Some "PyCon 2024" ∧
    row !! "location" = Some "Islamabad".
Proof.
  destruct (update_event_twice_last_wins max_id_succ sample_db 2
              sample_update sample_update_location
              (sample_attrs "PyCon" "Lahore"))
    as (row & Hout & Hsecond & Hfirst & _).
  { vm_compute. reflexivity. }
  exists row. split_and!; [exact Hout| |].
  - apply Hfirst.
    + vm_compute. intros H. discriminate H.
    + vm_compute. reflexivity.
    + vm_compute. reflexivity.
  - apply Hsecond.
    + vm_compute. reflexivity.
    + vm_compute. reflexivity.
Defined.

Lemma delete_event_then_create_restores_witness :
  respond as_dict
    (with_body (mkEvent (Some 2) (sample_attrs "PyCon" "Lahore"))
               (create_event max_id_succ))
    (respond as_dict (delete_event max_id_succ 2) sample_db).2
  = (Ok {[ "message" := "Event created successfully" ]}, sample_db).
Proof.
  apply delete_event_then_create_restores.
  vm_compute. reflexivity.
Defined.

Lemma update_event_same_values_identity_witness :
  respond as_event (update_event max_id_succ 2 same_title_update) sample_db
  = (Ok (mkEvent (Some 2) (sample_attrs "PyCon" "Lahore")), sample_db).
Proof.
  apply update_event_same_values_identity.
  - vm_compute. reflexivity.
  - intros k v Hk Hv. unfold same_title_update in Hk; simpl in Hk.
    apply elem_of_singleton in Hk as ->.
    vm_compute in Hv. injection Hv as <-. vm_compute. reflexivity.
Defined.

Lemma update_event_commute_witness :
  (respond as_event (update_event max_id_succ 2 sample_update_location)
     (respond as_event (update_event max_id_succ 1 sample_update)
              sample_db).2).2
  = (respond as_event (update_event max_id_succ 1 sample_update)
       (respond as_event (update_event max_id_succ 2 sample_update_location)
                sample_db).2).2.
Proof.
  apply update_event_commute. intros H. discriminate H.
Defined.

Lemma create_event_twice_same_key_fails_witness :
  let db1 :=
    (respond as_dict (with_body sample_keyed_event (create_event max_id_succ))
             sample_db).2 in
  db1 !! 7 = Some (sample_attrs "EuroPython" "Prague") ∧
  respond as_dict (with_body sample_keyed_event (create_event max_id_succ))
          db1
  = (Raise IntegrityError, db1).
Proof.
  intros db1. split.
  - vm_compute. reflexivity.
  - apply (create_event_twice_same_key_fails max_id_succ sample_db
             sample_keyed_event 7).
    reflexivity.
Defined.

Lemma event_router_failure_keeps_table_witness :
  event_router max_id_succ (POST_new (mkEvent (Some 1) ∅)) sample_db
  = (Raise IntegrityError, sample_db) ∧
  sample_db = sample_db.
Proof.
  assert (event_router max_id_succ (POST_new (mkEvent (Some 1) ∅)) sample_db
          = (Raise IntegrityError, sample_db)) as Hfail
    by (vm_compute; reflexivity).
  split; [exact Hfail|].
  exact (event_router_failure_keeps_table max_id_succ _ _ _ _ Hfail).
Defined.

Lemma event_router_failures_witness :
  let req : @Request string := DELETE_event 9 in
  (event_not_found
   = HTTPException HTTP_404_NOT_FOUND "Event with supplied ID does not exist"
   ∧ ∃ id, sample_db !! id = None ∧
           (req = GET_event id ∨
            (∃ new_data, req = PUT_edit id new_data) ∨
            req = DELETE_event id)) ∨
  (event_not_found = IntegrityError ∧
   ∃ new_event, req = POST_new new_event ∧
                is_Some (sample_db !! default (max_id_succ sample_db)
                                              (pk new_event))).
Proof.
  intros req.
  apply (event_router_failures max_id_succ req sample_db).
  vm_compute. reflexivity.
Defined.

Lemma serve_without_post_no_new_keys_witness :
  dom (serve max_id_succ requests_without_post sample_db) ⊆ dom sample_db.
Proof.
  apply serve_without_post_no_new_keys.
  repeat constructor.
Defined.

Lemma serve_without_delete_keeps_keys_witness :
  dom sample_db ⊆ dom (serve max_id_succ requests_without_delete sample_db).
Proof.
  apply serve_without_delete_keeps_keys.
  repeat constructor.
Defined.

Lemma serve_untouched_row_unchanged_witness :
  serve max_id_succ requests_elsewhere sample_db !! 1
  = Some (sample_attrs "FastAPI book launch" "Google Meet").
Proof.
  apply serve_untouched_row_unchanged.
  - vm_compute. reflexivity.
  - repeat constructor.
Defined.

Lemma serve_gets_keep_table_witness :
  serve max_id_succ read_requests sample_db = sample_db.
Proof.
  apply serve_gets_keep_table.
  repeat constructor.
Defined.

Lemma serve_delete_each_is_delete_all_witness :
  serve max_id_succ (DELETE_event <$> [2; 5; 1]) sample_db
  = serve max_id_succ [DELETE_events] sample_db.
Proof.
  apply serve_delete_each_is_delete_all.
  intros i [a Hi].
  destruct (decide (i = 1)) as [->|H1]; [repeat constructor|].
  destruct (decide (i = 2)) as [->|H2]; [repeat constructor|].
  unfold sample_db in Hi.
  rewrite lookup_insert_ne, lookup_singleton_ne in Hi by done.
  discriminate Hi.
Defined.

Lemma create_event_then_retrieve_all_witness :
  let db' :=
    (respond as_dict (with_body sample_event (create_event max_id_succ))
             sample_db).2 in
  ∃ before after,
    respond as_events (retrieve_all_events max_id_succ) sample_db
    = (Ok before, sample_db) ∧
    respond as_events (retrieve_all_events max_id_succ) db'
    = (Ok after, db') ∧
    (sample_listed_event ∈ after ↔
     sample_listed_event = mkEvent (Some 3) (attrs sample_event) ∨
     sample_listed_event ∈ before).
Proof.
  exact (create_event_then_retrieve_all max_id_succ max_id_succ_fresh
           sample_db sample_event sample_listed_event sample_event_key_free).
Defined.
